(** * The CSS selector builder of [05-objects-tasks.js]

    A shallow embedding of [class BaseSelector] and of the facade
    [cssSelectorBuilder], and the properties of selector chains that
    follow from the code.

    A [BaseSelector] object carries two fields set by its constructor,
    [type] (the space separated names of the parts applied so far, or
    [undefined] for the result of [combine]) and [value] (the text built
    so far), and a third one, [message], that the two [throw...Error]
    methods assign before they throw.  Methods are functions in a small
    state-and-exception monad over the receiver [this]; objects live in
    a store addressed by references, so that sharing a partial chain
    between several extensions can be stated. *)

From Stdlib Require Import String Ascii List Bool Arith Lia ZArith.
From Stdlib Require PrimFloat FloatOps FloatAxioms SpecFloat.
From stdpp Require Import base list strings.

#[local] Arguments String.append !_ _ / : simpl nomatch.

(** ** The [String.prototype] methods the class relies on *)

Module Js.

(** Code units that [trim] strips, in the one-byte range. *)
Definition is_white_space (c : ascii) : bool :=
  match nat_of_ascii c with
  | 9 | 10 | 11 | 12 | 13 | 32 | 160 => true
  | _ => false
  end.

Fixpoint trimStart (s : string) : string :=
  match s with
  | EmptyString => EmptyString
  | String c s' => if is_white_space c then trimStart s' else s
  end.

Fixpoint trimEnd (s : string) : string :=
  match s with
  | EmptyString => EmptyString
  | String c s' =>
      match trimEnd s' with
      | EmptyString => if is_white_space c then EmptyString else String c EmptyString
      | r => String c r
      end
  end.

(** [s.trim()] *)
Definition trim (s : string) : string := trimEnd (trimStart s).

(** [s.includes(sub)]: [sub] occurs in [s] at some position. *)
Fixpoint includes (sub s : string) : bool :=
  String.prefix sub s ||
  match s with
  | EmptyString => false
  | String _ s' => includes sub s'
  end.

(** [xs.join(sep)] on an array of strings. *)
Fixpoint join (sep : string) (xs : list string) : string :=
  match xs with
  | [] => EmptyString
  | [x] => x
  | x :: xs' => x +:+ sep +:+ join sep xs'
  end.

(** A regular expression [w1|w2|...|wn] whose alternatives are literal
    words (the only shape [isValidType] builds: its arguments are names
    made of letters) is kept as the list of its alternatives.  At a given
    position the first alternative, in the order written, that is a prefix
    of the rest of the subject matches. *)
Definition RegExp := list string.

Fixpoint exec (re : RegExp) (s : string) : option nat :=
  match re with
  | [] => None
  | w :: re' => if String.prefix w s then Some (String.length w) else exec re' s
  end.

(** [s.replace(re, '')] with the [g] flag: every match, scanning from the
    left, is dropped; a position where nothing matches (or where the match
    is empty) keeps its code unit.  [skip] counts the code units of the
    current match still to be dropped. *)
Fixpoint replace_from (re : RegExp) (skip : nat) (s : string) : string :=
  match s with
  | EmptyString => EmptyString
  | String c s' =>
      match skip with
      | S k => replace_from re k s'
      | O =>
          match exec re s with
          | Some (S k) => replace_from re k s'
          | _ => String c (replace_from re 0 s')
          end
      end
  end.

Definition replace_all (re : RegExp) (s : string) : string := replace_from re 0 s.

End Js.

(** ** Values, objects and completions *)

(** The values [type] and [message] range over. *)
Inductive JsValue :=
| undefined
| JsString (s : string).

(** [===] on these values. *)
Definition strict_equals (a b : JsValue) : bool :=
  match a, b with
  | undefined, undefined => true
  | JsString x, JsString y => String.eqb x y
  | _, _ => false
  end.

(** Conversion to string in a template literal. *)
Definition ToString (v : JsValue) : string :=
  match v with
  | undefined => "undefined"
  | JsString s => s
  end.

Record BaseSelector := {
  type : JsValue;
  value : string;
  message : JsValue
}.

(** [new BaseSelector(type, value)] *)
Definition new_BaseSelector (type : JsValue) (value : string) : BaseSelector :=
  {| type := type; value := value; message := undefined |}.

Inductive Thrown :=
| Error (message : string)
| TypeError.

Inductive Completion (A : Type) :=
| Normal (a : A)
| Throw (e : Thrown).
Arguments Normal {A} a.
Arguments Throw {A} e.

(** A method body: from the receiver to a completion and the receiver as
    the body leaves it. *)
Definition Method (A : Type) : Type := BaseSelector -> Completion A * BaseSelector.

Definition ret {A} (a : A) : Method A := fun this => (Normal a, this).

Definition bind {A B} (m : Method A) (k : A -> Method B) : Method B :=
  fun this =>
    match m this with
    | (Normal a, this') => k a this'
    | (Throw e, this') => (Throw e, this')
    end.

Definition throw {A} (e : Thrown) : Method A := fun this => (Throw e, this).

Notation "'let!' x ':=' m 'in' k" := (bind m (fun x => k))
  (at level 10, x name, m at level 100, k at level 200).
Notation "m ';;' k" := (bind m (fun _ => k))
  (at level 100, k at level 200, right associativity).

Definition when (b : bool) (m : Method unit) : Method unit :=
  if b then m else ret tt.

Definition this_type : Method JsValue := fun this => (Normal (type this), this).
Definition this_value : Method string := fun this => (Normal (value this), this).
Definition this_message : Method JsValue := fun this => (Normal (message this), this).

(** [this.message = m] *)
Definition assign_message (m : string) : Method unit :=
  fun this =>
    (Normal tt, {| type := type this; value := value this; message := JsString m |}).

(** Reading a property of [v] (here always a [String.prototype] method or
    [length]): a [TypeError] when [v] is [undefined]. *)
Definition member_of (v : JsValue) : Method string :=
  match v with
  | undefined => throw TypeError
  | JsString s => ret s
  end.

Definition result {A} (r : Completion A * BaseSelector) : Completion A := fst r.
Definition receiver {A} (r : Completion A * BaseSelector) : BaseSelector := snd r.

(** ** [class BaseSelector] *)

Definition order_text : string :=
  "Selector parts should be arranged in the following order: element, id, class, attribute, pseudo-class, pseudo-element".

Definition repeat_text : string :=
  "Element, id and pseudo-element should not occur more then one time inside the selector".

Module BaseSelector.

Definition throwOrderError : Method unit :=
  assign_message order_text ;;
  let! m := this_message in
  throw (Error (ToString m)).

Definition throwRepeatError : Method unit :=
  assign_message repeat_text ;;
  let! m := this_message in
  throw (Error (ToString m)).

Definition isValidType (types : list string) : Method bool :=
  let regExp : Js.RegExp := types in
  let! ty := this_type in
  let! s := member_of ty in
  ret (String.length (Js.trim (Js.replace_all regExp s)) =? 0).

Definition stringify : Method string :=
  let! v := this_value in
  ret v.

Definition element (v : string) : Method BaseSelector :=
  let! ty := this_type in
  when (strict_equals ty (JsString "element")) throwRepeatError ;;
  let! s := member_of ty in
  when (0 <? String.length s) throwOrderError ;;
  let! ty := this_type in
  let! val := this_value in
  ret (new_BaseSelector (JsString (ToString ty +:+ " element")) (val +:+ v)).

Definition id (v : string) : Method BaseSelector :=
  let! ty := this_type in
  let! s := member_of ty in
  when (Js.includes "id" s) throwRepeatError ;;
  let! ok := isValidType ["element"] in
  when (negb ok) throwOrderError ;;
  let! ty := this_type in
  let! val := this_value in
  ret (new_BaseSelector (JsString (ToString ty +:+ " id")) (val +:+ "#" +:+ v)).

Definition class (v : string) : Method BaseSelector :=
  let! ok := isValidType ["element"; "id"; "class"] in
  when (negb ok) throwOrderError ;;
  let! ty := this_type in
  let! val := this_value in
  ret (new_BaseSelector (JsString (ToString ty +:+ " class")) (val +:+ "." +:+ v)).

Definition attr (v : string) : Method BaseSelector :=
  let! ok := isValidType ["element"; "id"; "class"; "attr"] in
  when (negb ok) throwOrderError ;;
  let! ty := this_type in
  let! val := this_value in
  ret (new_BaseSelector (JsString (ToString ty +:+ " attr")) (val +:+ "[" +:+ v +:+ "]")).

Definition pseudoClass (v : string) : Method BaseSelector :=
  let! ok := isValidType ["element"; "id"; "class"; "attr"; "pseudoClass"] in
  when (negb ok) throwOrderError ;;
  let! ty := this_type in
  let! val := this_value in
  ret (new_BaseSelector (JsString (ToString ty +:+ " pseudoClass")) (val +:+ ":" +:+ v)).

Definition pseudoElement (v : string) : Method BaseSelector :=
  let! ty := this_type in
  let! s := member_of ty in
  when (Js.includes "pseudoElement" s) throwRepeatError ;;
  let! ok := isValidType ["element"; "id"; "class"; "attr"; "pseudoClass"] in
  when (negb ok) throwOrderError ;;
  let! ty := this_type in
  let! val := this_value in
  ret (new_BaseSelector (JsString (ToString ty +:+ " pseudoElement")) (val +:+ "::" +:+ v)).

End BaseSelector.

(** ** The facade [cssSelectorBuilder] *)

Module cssSelectorBuilder.

Definition element (v : string) : BaseSelector :=
  new_BaseSelector (JsString "element") v.

Definition id (v : string) : BaseSelector :=
  new_BaseSelector (JsString "id") ("#" +:+ v).

Definition class (v : string) : BaseSelector :=
  new_BaseSelector (JsString "class") ("." +:+ v).

Definition attr (v : string) : BaseSelector :=
  new_BaseSelector (JsString "attr") ("[" +:+ v +:+ "]").

Definition pseudoClass (v : string) : BaseSelector :=
  new_BaseSelector (JsString "pseudoClass") (":" +:+ v).

Definition pseudoElement (v : string) : BaseSelector :=
  new_BaseSelector (JsString "pseudoElement") ("::" +:+ v).

(** [combine] only reads the [value] of its two arguments. *)
Definition combine (selector1 : BaseSelector) (combinator : string)
    (selector2 : BaseSelector) : BaseSelector :=
  new_BaseSelector undefined
    (Js.join " " [value selector1; combinator; value selector2]).

End cssSelectorBuilder.

(** ** Chains of selector parts *)

(** The six kinds of part, in the order the selector grammar fixes. *)
Inductive Category :=
| CElement
| CId
| CClass
| CAttr
| CPseudoClass
| CPseudoElement.

(** The word the code appends to [type] for each kind. *)
Definition name (c : Category) : string :=
  match c with
  | CElement => "element"
  | CId => "id"
  | CClass => "class"
  | CAttr => "attr"
  | CPseudoClass => "pseudoClass"
  | CPseudoElement => "pseudoElement"
  end.

Definition rank (c : Category) : nat :=
  match c with
  | CElement => 0
  | CId => 1
  | CClass => 2
  | CAttr => 3
  | CPseudoClass => 4
  | CPseudoElement => 5
  end.

(** The facade entry point and the method of each kind. *)
Definition start (c : Category) : string -> BaseSelector :=
  match c with
  | CElement => cssSelectorBuilder.element
  | CId => cssSelectorBuilder.id
  | CClass => cssSelectorBuilder.class
  | CAttr => cssSelectorBuilder.attr
  | CPseudoClass => cssSelectorBuilder.pseudoClass
  | CPseudoElement => cssSelectorBuilder.pseudoElement
  end.

Definition method (c : Category) : string -> Method BaseSelector :=
  match c with
  | CElement => BaseSelector.element
  | CId => BaseSelector.id
  | CClass => BaseSelector.class
  | CAttr => BaseSelector.attr
  | CPseudoClass => BaseSelector.pseudoClass
  | CPseudoElement => BaseSelector.pseudoElement
  end.

Definition Fragment : Type := Category * string.

(** [start(v1).m2(v2)...mn(vn)]: the calls are made in turn, each on the
    object the previous one returned; the first one that throws ends the
    expression. *)
Fixpoint extend (s : BaseSelector) (fs : list Fragment) : Completion BaseSelector :=
  match fs with
  | [] => Normal s
  | (c, v) :: fs' =>
      match result (method c v s) with
      | Normal s' => extend s' fs'
      | Throw e => Throw e
      end
  end.

Definition chain (f : Fragment) (fs : list Fragment) : Completion BaseSelector :=
  extend (start (fst f) (snd f)) fs.

(** The selectors a program can hold that did not come out of [combine],
    with the kinds of the parts that were applied to build each: a facade
    call starts one, a method call that returns yields the next, and a
    method call that throws leaves its receiver behind. *)
Inductive Chain : BaseSelector -> list Category -> Prop :=
| Chain_start c v :
    Chain (start c v) [c]
| Chain_part s cats c v s' :
    Chain s cats ->
    result (method c v s) = Normal s' ->
    Chain s' (cats ++ [c])
| Chain_thrown s cats c v e :
    Chain s cats ->
    result (method c v s) = Throw e ->
    Chain (receiver (method c v s)) cats.

(** The [type] the code keeps for a history of kinds. *)
Fixpoint type_tail (cats : list Category) : string :=
  match cats with
  | [] => EmptyString
  | c :: cats' => " " +:+ name c +:+ type_tail cats'
  end.

Definition type_of (cats : list Category) : string :=
  match cats with
  | [] => EmptyString
  | c :: cats' => name c +:+ type_tail cats'
  end.

(** The text of one part, as the selector syntax writes it. *)
Definition syntax (f : Fragment) : string :=
  match f with
  | (CElement, v) => v
  | (CId, v) => "#" +:+ v
  | (CClass, v) => "." +:+ v
  | (CAttr, v) => "[" +:+ v +:+ "]"
  | (CPseudoClass, v) => ":" +:+ v
  | (CPseudoElement, v) => "::" +:+ v
  end.

Fixpoint concat_syntax (fs : list Fragment) : string :=
  match fs with
  | [] => EmptyString
  | f :: fs' => syntax f +:+ concat_syntax fs'
  end.

(** Kinds that may occur several times in a selector. *)
Definition repeatable (c : Category) : bool :=
  match c with
  | CClass | CAttr | CPseudoClass => true
  | _ => false
  end.

(** One step of a valid ordering: from a part of kind [l] to one of kind [c]. *)
Definition valid_step (l c : Category) : bool :=
  (rank l <? rank c) || ((rank l =? rank c) && repeatable c).

(** A valid ordering of kinds: ranks never decrease, and only the
    repeatable kinds stay at the same rank. *)
Fixpoint valid_order (cats : list Category) : bool :=
  match cats with
  | c1 :: ((c2 :: _) as rest) => valid_step c1 c2 && valid_order rest
  | _ => true
  end.

(** ** The store of selector objects *)

Abbreviation Ref := nat (only parsing).
Abbreviation Store := (list BaseSelector) (only parsing).

(** [r.m(...)] for a method [m]: the body runs on the object [r] points
    to, which is written back as the body left it.  A reference into
    nowhere has no counterpart in the program: [None]. *)
Definition invoke {A} (m : Method A) (r : Ref) (h : Store) : option (Completion A * Store) :=
  match h !! r with
  | None => None
  | Some this => let '(res, this') := m this in Some (res, <[r := this']> h)
  end.

(** A method that returns a [new BaseSelector(...)]: the new object gets a
    fresh reference. *)
Definition invoke_new (m : Method BaseSelector) (r : Ref) (h : Store)
    : option (Completion Ref * Store) :=
  match invoke m r h with
  | None => None
  | Some (Normal o, h') => Some (Normal (length h'), h' ++ [o])
  | Some (Throw e, h') => Some (Throw e, h')
  end.

(** [cssSelectorBuilder.combine(r1, combinator, r2)] *)
Definition combine_new (r1 : Ref) (combinator : string) (r2 : Ref) (h : Store)
    : option (Ref * Store) :=
  match h !! r1, h !! r2 with
  | Some s1, Some s2 =>
      Some (length h, h ++ [cssSelectorBuilder.combine s1 combinator s2])
  | _, _ => None
  end.

(** The double quote, for the attribute values of the examples. *)
Definition dquote : string :=
  String (Ascii false true false false false true false false) EmptyString.

(** ** Vocabulary of the statements *)

(** A string made of white space only. *)
Fixpoint blank (s : string) : bool :=
  match s with
  | EmptyString => true
  | String c s' => Js.is_white_space c && blank s'
  end.

(** The kinds a call [isValidType(...types)] lets through. *)
Definition allowed (types : list string) (c : Category) : bool :=
  existsb (String.eqb (name c)) types.

(** The four argument lists [isValidType] is called with. *)
Inductive call_site : list string -> Prop :=
| site_id : call_site ["element"]
| site_class : call_site ["element"; "id"; "class"]
| site_attr : call_site ["element"; "id"; "class"; "attr"]
| site_pseudo : call_site ["element"; "id"; "class"; "attr"; "pseudoClass"].

Definition is_id (c : Category) : bool :=
  match c with CId => true | _ => false end.

Definition is_pseudoElement (c : Category) : bool :=
  match c with CPseudoElement => true | _ => false end.

(** The receiver after [throwOrderError] or [throwRepeatError]. *)
Definition with_message (text : string) (s : BaseSelector) : BaseSelector :=
  {| type := type s; value := value s; message := JsString text |}.

Definition thrown {A} (text : string) (s : BaseSelector) : Completion A * BaseSelector :=
  (Throw (Error text), with_message text s).

(** The argument list of [isValidType] in the method of each kind
    ([element] does not call it). *)
Definition accepted_before (c : Category) : list string :=
  match c with
  | CElement => []
  | CId => ["element"]
  | CClass => ["element"; "id"; "class"]
  | CAttr => ["element"; "id"; "class"; "attr"]
  | CPseudoClass | CPseudoElement => ["element"; "id"; "class"; "attr"; "pseudoClass"]
  end.

(** The first guard of each method, on a history. *)
Definition repeated (c : Category) (cats : list Category) : bool :=
  match c with
  | CElement => match cats with [CElement] => true | _ => false end
  | CId => existsb is_id cats
  | CPseudoElement => existsb is_pseudoElement cats
  | _ => false
  end.

(** The second guard. *)
Definition misplaced (c : Category) (cats : list Category) : bool :=
  match c with
  | CElement => true
  | _ => negb (forallb (allowed (accepted_before c)) cats)
  end.

(** A body frames the receiver when it leaves [type] and [value] as they
    were, and leaves the whole object as it was when it returns. *)
Definition frames {A} (m : Method A) : Prop :=
  forall this,
    type (receiver (m this)) = type this /\
    value (receiver (m this)) = value this /\
    (forall a, result (m this) = Normal a -> receiver (m this) = this).

(** [expr.stringify()] for an expression that may have thrown. *)
Definition then_stringify (r : Completion BaseSelector) : Completion string :=
  match r with
  | Normal s => result (BaseSelector.stringify s)
  | Throw e => Throw e
  end.

(** [m(); m(); ...], [n] times, on the same object. *)
Fixpoint call_repeatedly {A} (m : Method A) (n : nat) (this : BaseSelector)
    : list (Completion A) * BaseSelector :=
  match n with
  | 0 => ([], this)
  | S n' =>
      let '(r, this') := m this in
      let '(rs, this'') := call_repeatedly m n' this' in
      (r :: rs, this'')
  end.

Definition same_fields (a b : BaseSelector) : Prop :=
  type a = type b /\ value a = value b.

(** A body respects [same_fields] when two receivers that agree on [type]
    and [value] get the same completion and still agree afterwards. *)
Definition respects {A} (m : Method A) : Prop :=
  forall a b, same_fields a b ->
    result (m a) = result (m b) /\ same_fields (receiver (m a)) (receiver (m b)).

(** What a call handed back: the object behind the fresh reference, or
    what was thrown. *)
Definition returned (r : option (Completion Ref * Store)) : option (Completion BaseSelector) :=
  match r with
  | None => None
  | Some (Throw e, _) => Some (Throw e)
  | Some (Normal r', h') =>
      match h' !! r' with
      | Some o => Some (Normal o)
      | None => None
      end
  end.

(** ** [function Rectangle] *)

(** The numbers of the language are the doubles of IEEE 754, here
    [PrimFloat.float], and [*] on them is [PrimFloat.mul].  The
    constructor is taken on the numbers its documentation asks for. *)
Record Rectangle := {
  width : PrimFloat.float;
  height : PrimFloat.float
}.

(** [new Rectangle(width, height)] *)
Definition new_Rectangle (w h : PrimFloat.float) : Rectangle :=
  {| width := w; height := h |}.

(** [r.getArea()]: the function every instance gets from the constructor,
    called as a method of [this]. *)
Definition getArea (this : Rectangle) : PrimFloat.float :=
  PrimFloat.mul (width this) (height this).

(** * Properties *)

Example doc_example_1 :
  chain (CId, "main") [(CClass, "container"); (CClass, "editable")]
  = Normal (new_BaseSelector (JsString "id class class") "#main.container.editable").
Proof. reflexivity. Qed.

Example doc_example_2 :
  chain (CElement, "a") [(CAttr, "href$=" +:+ dquote +:+ ".png" +:+ dquote); (CPseudoClass, "focus")]
  = Normal (new_BaseSelector (JsString "element attr pseudoClass")
       ("a[href$=" +:+ dquote +:+ ".png" +:+ dquote +:+ "]:focus")).
Proof. reflexivity. Qed.

Example type_of_example :
  type_of [CElement; CAttr; CPseudoClass] = "element attr pseudoClass".
Proof. reflexivity. Qed.

Example element_after_id :
  chain (CElement, "div") [(CId, "main"); (CElement, "p")] = Throw (Error order_text).
Proof. reflexivity. Qed.

Example id_after_class_after_id :
  chain (CId, "a") [(CClass, "b"); (CId, "c")] = Throw (Error repeat_text).
Proof. reflexivity. Qed.

Example element_on_combined :
  result (BaseSelector.element "x"
    (cssSelectorBuilder.combine (cssSelectorBuilder.element "a") "+" (cssSelectorBuilder.element "b")))
  = Throw TypeError.
Proof. reflexivity. Qed.

(** ** Facts about the string methods *)

Lemma trimEnd_keeps_ink c s :
  Js.is_white_space c = false -> Js.trimEnd (String c s) <> EmptyString.
Proof.
  intros Hc. simpl. destruct (Js.trimEnd s); rewrite ?Hc; discriminate.
Qed.

Lemma trim_length_blank s :
  (String.length (Js.trim s) =? 0) = blank s.
Proof.
  unfold Js.trim. induction s as [|c s IH]; [reflexivity|].
  simpl Js.trimStart. simpl blank.
  destruct (Js.is_white_space c) eqn:Hc; [exact IH|].
  pose proof (trimEnd_keeps_ink c s Hc) as Hne.
  destruct (Js.trimEnd (String c s)); [congruence | reflexivity].
Qed.

Lemma append_assoc (a b c : string) : (a +:+ b) +:+ c = a +:+ (b +:+ c).
Proof. induction a as [|x a IH]; simpl; [reflexivity | now rewrite IH]. Qed.

Lemma append_empty_r (a : string) : a +:+ EmptyString = a.
Proof. induction a as [|x a IH]; simpl; [reflexivity | now rewrite IH]. Qed.

Lemma type_tail_snoc cats c :
  type_tail (cats ++ [c]) = type_tail cats +:+ " " +:+ name c.
Proof.
  induction cats as [|d cats IH]; simpl type_tail.
  - simpl. now rewrite append_empty_r.
  - rewrite IH. change (String " " (name d +:+ type_tail cats) +:+ " " +:+ name c)
      with (String " " ((name d +:+ type_tail cats) +:+ " " +:+ name c)).
    now rewrite append_assoc.
Qed.

Lemma type_of_snoc cats c :
  cats <> [] -> type_of (cats ++ [c]) = type_of cats +:+ " " +:+ name c.
Proof.
  destruct cats as [|d cats]; [congruence|]. intros _.
  simpl. now rewrite type_tail_snoc, append_assoc.
Qed.

Lemma prefix_empty s : String.prefix EmptyString s = true.
Proof. now destruct s. Qed.

Ltac crunch_strings :=
  repeat (simpl; rewrite ?prefix_empty).

Lemma replace_type_tail types cats :
  call_site types ->
  blank (Js.replace_from types 0 (type_tail cats)) = forallb (allowed types) cats.
Proof.
  intros Hs. induction cats as [|c cats IH]; [reflexivity|].
  destruct Hs, c; crunch_strings; solve [exact IH | reflexivity].
Qed.

Lemma replace_type_of types cats :
  call_site types ->
  blank (Js.replace_all types (type_of cats)) = forallb (allowed types) cats.
Proof.
  intros Hs. destruct cats as [|c cats]; [reflexivity|].
  pose proof (replace_type_tail types cats Hs) as IH.
  unfold Js.replace_all.
  destruct Hs, c; crunch_strings; solve [exact IH | reflexivity].
Qed.

Lemma includes_id_tail cats :
  Js.includes "id" (type_tail cats) = existsb is_id cats.
Proof.
  induction cats as [|c cats IH]; [reflexivity|].
  destruct c; crunch_strings; solve [exact IH | reflexivity].
Qed.

Lemma includes_id cats :
  Js.includes "id" (type_of cats) = existsb is_id cats.
Proof.
  destruct cats as [|c cats]; [reflexivity|].
  pose proof (includes_id_tail cats) as IH.
  destruct c; crunch_strings; solve [exact IH | reflexivity].
Qed.

Lemma includes_pseudoElement_tail cats :
  Js.includes "pseudoElement" (type_tail cats) = existsb is_pseudoElement cats.
Proof.
  induction cats as [|c cats IH]; [reflexivity|].
  destruct c; crunch_strings; solve [exact IH | reflexivity].
Qed.

Lemma includes_pseudoElement cats :
  Js.includes "pseudoElement" (type_of cats) = existsb is_pseudoElement cats.
Proof.
  destruct cats as [|c cats]; [reflexivity|].
  pose proof (includes_pseudoElement_tail cats) as IH.
  destruct c; crunch_strings; solve [exact IH | reflexivity].
Qed.

Lemma type_of_is_element cats :
  String.eqb (type_of cats) "element" =
  match cats with [CElement] => true | _ => false end.
Proof.
  destruct cats as [|c [|d cats]]; [reflexivity| destruct c; reflexivity |].
  destruct c; reflexivity.
Qed.

Lemma type_of_length cats :
  cats <> [] -> (0 <? String.length (type_of cats)) = true.
Proof.
  destruct cats as [|c cats]; [congruence|]. intros _. destruct c; reflexivity.
Qed.

(** ** What each method does on a receiver with a known history *)

Lemma isValidType_type_of types s cats :
  call_site types ->
  type s = JsString (type_of cats) ->
  BaseSelector.isValidType types s = (Normal (forallb (allowed types) cats), s).
Proof.
  intros Hs Ht. unfold BaseSelector.isValidType, bind, this_type, member_of, ret.
  rewrite Ht, trim_length_blank, replace_type_of by exact Hs. reflexivity.
Qed.

(** The tail of every method but [element]: the order guard, then the
    new object. *)
Ltac order_guard site Ht :=
  rewrite (isValidType_type_of _ _ _ site Ht);
  try unfold repeated; unfold misplaced, accepted_before;
  destruct (forallb _ _); [|reflexivity];
  unfold bind, when, ret, this_type, this_value, negb; rewrite Ht; reflexivity.

Lemma method_on_history s cats c v :
  type s = JsString (type_of cats) ->
  cats <> [] ->
  method c v s =
    if repeated c cats then thrown repeat_text s
    else if misplaced c cats then thrown order_text s
    else (Normal (new_BaseSelector (JsString (type_of (cats ++ [c])))
                    (value s +:+ syntax (c, v))), s).
Proof.
  intros Ht Hne.
  pose proof (type_of_is_element cats) as He.
  pose proof (type_of_length cats Hne) as Hl.
  pose proof (includes_id cats) as Hi.
  pose proof (includes_pseudoElement cats) as Hp.
  rewrite (type_of_snoc cats c Hne).
  destruct c; unfold method.
  - unfold BaseSelector.element, bind at 1, this_type at 1.
    unfold bind at 1. rewrite Ht. unfold strict_equals. rewrite He.
    unfold repeated, misplaced.
    destruct cats as [|[] [|d cats]]; try congruence; try reflexivity.
    all: unfold when at 1, ret at 1, bind at 1, member_of at 1, ret at 1;
      unfold bind at 1; rewrite Hl; reflexivity.
  - unfold BaseSelector.id, bind at 1, this_type at 1, bind at 1.
    rewrite Ht. unfold member_of at 1, ret at 1, bind at 1. rewrite Hi.
    unfold repeated. destruct (existsb is_id cats); [reflexivity|].
    unfold when at 1, ret at 1, bind at 1. order_guard site_id Ht.
  - unfold BaseSelector.class, bind at 1. order_guard site_class Ht.
  - unfold BaseSelector.attr, bind at 1. order_guard site_attr Ht.
  - unfold BaseSelector.pseudoClass, bind at 1. order_guard site_pseudo Ht.
  - unfold BaseSelector.pseudoElement, bind at 1, this_type at 1, bind at 1.
    rewrite Ht. unfold member_of at 1, ret at 1, bind at 1. rewrite Hp.
    unfold repeated. destruct (existsb is_pseudoElement cats); [reflexivity|].
    unfold when at 1, ret at 1, bind at 1. order_guard site_pseudo Ht.
Qed.

(** ** What no method body touches *)

Create HintDb frames.

Lemma frames_ret {A} (a : A) : frames (ret a).
Proof. intros this. cbn. auto. Qed.

Lemma frames_throw {A} (e : Thrown) : frames (@throw A e).
Proof. intros this. cbn. auto. Qed.

Lemma frames_bind {A B} (m : Method A) (k : A -> Method B) :
  frames m -> (forall a, frames (k a)) -> frames (bind m k).
Proof.
  intros Hm Hk this. unfold bind.
  destruct (Hm this) as (Ht & Hv & Hn).
  destruct (m this) as [[a|e] this'] eqn:E; cbn in *.
  - rewrite (Hn a eq_refl). apply Hk.
  - repeat split; auto. discriminate.
Qed.

Lemma frames_this_type : frames this_type.
Proof. intros this. cbn. auto. Qed.

Lemma frames_this_value : frames this_value.
Proof. intros this. cbn. auto. Qed.

Lemma frames_member_of v : frames (member_of v).
Proof. destruct v; [apply frames_throw | apply frames_ret]. Qed.

Lemma frames_throwOrderError : frames BaseSelector.throwOrderError.
Proof. intros this. cbn. repeat split; auto. discriminate. Qed.

Lemma frames_throwRepeatError : frames BaseSelector.throwRepeatError.
Proof. intros this. cbn. repeat split; auto. discriminate. Qed.

Lemma frames_when b m : frames m -> frames (when b m).
Proof. intros Hm. destruct b; [exact Hm | apply frames_ret]. Qed.

#[local] Hint Resolve frames_ret frames_throw frames_this_type frames_this_value
  frames_member_of frames_throwOrderError frames_throwRepeatError frames_when : frames.

Ltac frame_body :=
  repeat (apply frames_bind; [|intros ?]); auto with frames.

Lemma frames_isValidType types : frames (BaseSelector.isValidType types).
Proof. unfold BaseSelector.isValidType. frame_body. Qed.

#[local] Hint Resolve frames_isValidType : frames.

Lemma frames_stringify : frames BaseSelector.stringify.
Proof. unfold BaseSelector.stringify. frame_body. Qed.

Lemma frames_method c v : frames (method c v).
Proof.
  destruct c; unfold method;
    [ unfold BaseSelector.element | unfold BaseSelector.id
    | unfold BaseSelector.class | unfold BaseSelector.attr
    | unfold BaseSelector.pseudoClass | unfold BaseSelector.pseudoElement ];
    frame_body.
Qed.

(** ** The invariant of chains *)

Lemma Chain_type s cats :
  Chain s cats -> type s = JsString (type_of cats) /\ cats <> [].
Proof.
  induction 1 as [c v | s cats c v s' _ [Ht Hne] Hr | s cats c v e _ [Ht Hne] _].
  - split; [destruct c; reflexivity | discriminate].
  - split; [| now destruct cats].
    rewrite (method_on_history s cats c v Ht Hne) in Hr.
    destruct (repeated c cats); [discriminate|].
    destruct (misplaced c cats); [discriminate|].
    cbn in Hr. injection Hr as <-. reflexivity.
  - split; [| exact Hne].
    destruct (frames_method c v s) as (-> & _). exact Ht.
Qed.

Lemma extend_Chain fs : forall s cats s',
  Chain s cats -> extend s fs = Normal s' -> Chain s' (cats ++ map fst fs).
Proof.
  induction fs as [|[c v] fs IH]; intros s cats s' Hc He; cbn in He.
  - injection He as <-. cbn. now rewrite app_nil_r.
  - destruct (result (method c v s)) as [s1|e] eqn:E; [|discriminate].
    cbn [map fst]. change (cats ++ c :: map fst fs) with (cats ++ [c] ++ map fst fs).
    rewrite app_assoc. apply (IH s1); [|exact He].
    now apply (Chain_part s cats c v s1).
Qed.

Lemma chain_Chain f fs s :
  chain f fs = Normal s -> Chain s (map fst (f :: fs)).
Proof.
  intros H. apply (extend_Chain fs (start (fst f) (snd f)) [fst f] s); [|exact H].
  apply Chain_start.
Qed.

Lemma existsb_false {A} (f : A -> bool) (l : list A) :
  (forall x, In x l -> f x = false) -> existsb f l = false.
Proof.
  induction l as [|x l IH]; intros H; [reflexivity|]. cbn.
  rewrite (H x) by now left. apply IH. intros y Hy. apply H. now right.
Qed.

Lemma valid_step_passes hist l c :
  Forall (fun d => rank d <= rank l) hist ->
  valid_step l c = true ->
  repeated c hist = false /\ misplaced c hist = false.
Proof.
  intros Hall Hstep. rewrite List.Forall_forall in Hall.
  assert (Hc : c <> CElement).
  { intros ->. destruct l; discriminate. }
  assert (Hallowed : forallb (allowed (accepted_before c)) hist = true).
  { apply forallb_forall. intros d Hd. specialize (Hall d Hd).
    destruct c, l; try discriminate; destruct d; cbn in Hall; try lia; reflexivity. }
  split.
  - destruct c; try reflexivity; try congruence; unfold repeated;
      apply existsb_false; intros d Hd; specialize (Hall d Hd);
      destruct l; try discriminate; destruct d; cbn in Hall; try lia; reflexivity.
  - destruct c; try congruence; unfold misplaced; now rewrite Hallowed.
Qed.

Lemma extend_valid fs : forall s hist l,
  type s = JsString (type_of hist) ->
  hist <> [] ->
  Forall (fun d => rank d <= rank l) hist ->
  valid_order (l :: map fst fs) = true ->
  exists s', extend s fs = Normal s' /\ value s' = value s +:+ concat_syntax fs.
Proof.
  induction fs as [|[c v] fs IH]; intros s hist l Ht Hne Hall Hv.
  - exists s. cbn. now rewrite append_empty_r.
  - cbn [map fst valid_order] in Hv. apply andb_prop in Hv as [Hstep Hv].
    destruct (valid_step_passes hist l c Hall Hstep) as [Hr Hm].
    cbn [extend]. rewrite (method_on_history s hist c v Ht Hne), Hr, Hm.
    cbn [result fst].
    destruct (IH (new_BaseSelector (JsString (type_of (hist ++ [c])))
                    (value s +:+ syntax (c, v))) (hist ++ [c]) c) as (s' & He & Hval).
    + reflexivity.
    + now destruct hist.
    + apply List.Forall_app. split.
      * eapply List.Forall_impl; [|exact Hall]. cbn. intros d Hd.
        assert (rank l <= rank c); [|lia].
        unfold valid_step in Hstep. apply orb_prop in Hstep as [H|H].
        -- apply Nat.ltb_lt in H. lia.
        -- apply andb_prop in H as [H _]. apply Nat.eqb_eq in H. lia.
      * constructor; [lia | constructor].
    + exact Hv.
    + exists s'. split; [exact He|]. rewrite Hval. cbn [value new_BaseSelector concat_syntax].
      now rewrite append_assoc.
Qed.

(** C1. A chain that starts at the facade and appends parts in a valid
    ordering (ranks never decrease; only class, attribute and pseudo-class
    repeat) goes through: every call returns, and [stringify()] of the
    last selector is the concatenation, in append order and without
    separators, of each part as the selector syntax writes it.  The
    example of the documentation is an instance. *)
Theorem valid_chain_stringify :
  (forall (f : Fragment) (fs : list Fragment),
     valid_order (map fst (f :: fs)) = true ->
     exists s, chain f fs = Normal s /\
               result (BaseSelector.stringify s) = Normal (concat_syntax (f :: fs)))
  /\ then_stringify
       (chain (CElement, "a")
          [(CAttr, "href$=" +:+ dquote +:+ ".png" +:+ dquote); (CPseudoClass, "focus")])
     = Normal ("a[href$=" +:+ dquote +:+ ".png" +:+ dquote +:+ "]:focus").
Proof.
  split; [|reflexivity].
  intros [c v] fs Hv. unfold chain. cbn [fst snd].
  destruct (extend_valid fs (start c v) [c] c) as (s & He & Hval).
  - destruct c; reflexivity.
  - discriminate.
  - repeat constructor.
  - exact Hv.
  - exists s. split; [exact He|]. cbn. rewrite Hval. f_equal.
    destruct c; reflexivity.
Qed.

Lemma valid_chain_stringify_witness :
  exists s,
    chain (CElement, "div") [(CId, "main"); (CClass, "a"); (CClass, "b"); (CPseudoElement, "after")]
      = Normal s /\
    result (BaseSelector.stringify s) = Normal "div#main.a.b::after".
Proof.
  apply (proj1 valid_chain_stringify
           (CElement, "div") [(CId, "main"); (CClass, "a"); (CClass, "b"); (CPseudoElement, "after")]).
  reflexivity.
Defined.



Lemma valid_order_snoc cats l c :
  valid_order (cats ++ [l]) = true ->
  valid_step l c = true ->
  valid_order ((cats ++ [l]) ++ [c]) = true.
Proof.
  induction cats as [|a cats IH]; intros Hv Hs.
  - cbn. now rewrite Hs.
  - destruct cats as [|b cats].
    + cbn in *. apply andb_prop in Hv as [-> _]. now rewrite Hs.
    + change (valid_step a b && valid_order ((b :: cats) ++ [l]) = true) in Hv.
      apply andb_prop in Hv as [Hab Hv].
      change (valid_step a b && valid_order (((b :: cats) ++ [l]) ++ [c]) = true).
      rewrite Hab. now apply IH.
Qed.

(** The histories of chains are valid orderings: the guards let nothing
    else through. *)
Lemma Chain_valid_order s cats :
  Chain s cats -> valid_order cats = true.
Proof.
  induction 1 as [c v | s cats c v s' Hch IH Hr | s cats c v e _ IH _];
    [reflexivity | | exact IH].
  destruct (Chain_type s cats Hch) as [Ht Hne].
  rewrite (method_on_history s cats c v Ht Hne) in Hr.
  destruct (repeated c cats) eqn:Hrep; [discriminate|].
  destruct (misplaced c cats) eqn:Hmis; [discriminate|]. clear Hr.
  destruct (exists_last Hne) as (hist & l & ->).
  apply valid_order_snoc; [exact IH|].
  assert (Hl : In l (hist ++ [l])) by (apply in_or_app; right; now left).
  assert (Hc : c <> CElement) by (intros ->; discriminate).
  assert (Hal : allowed (accepted_before c) l = true).
  { destruct c; try congruence; unfold misplaced in Hmis;
      apply negb_false_iff in Hmis;
      exact (proj1 (forallb_forall _ _) Hmis l Hl). }
  destruct c; try congruence; destruct l; try discriminate; try reflexivity;
    exfalso; unfold repeated in Hrep;
    (assert (existsb is_id (hist ++ [CId]) = true)
       by (apply existsb_exists; exists CId; auto)) ||
    (assert (existsb is_pseudoElement (hist ++ [CPseudoElement]) = true)
       by (apply existsb_exists; exists CPseudoElement; auto));
    congruence.
Qed.


(** C2. The part of the claim the code misses: after
    [element('div').id('main')] the history holds [element], yet a second
    [element(...)] is answered with the order error, not with the error
    for a repeated part; the guard of [element] compares [type] with
    ['element'] as a whole where [id] and [pseudoElement] search it. *)
Theorem element_again_after_id_throws_order_error :
  chain (CElement, "div") [(CId, "main")]
    = Normal (new_BaseSelector (JsString "element id") "div#main")
  /\ Js.includes "element" "element id" = true
  /\ result (BaseSelector.element "p" (new_BaseSelector (JsString "element id") "div#main"))
     = Throw (Error order_text)
  /\ chain (CElement, "div") [(CId, "main"); (CElement, "p")] = Throw (Error order_text).
Proof. repeat split. Qed.

(** The parts of C2 the code does implement. *)
Lemma pseudoElement_repeated s cats v :
  Chain s cats -> In CPseudoElement cats ->
  BaseSelector.pseudoElement v s = thrown repeat_text s.
Proof.
  intros Hch Hin. destruct (Chain_type s cats Hch) as [Ht Hne].
  change (method CPseudoElement v s = thrown repeat_text s).
  rewrite (method_on_history s cats _ v Ht Hne).
  assert (repeated CPseudoElement cats = true) as ->; [|reflexivity].
  apply existsb_exists. exists CPseudoElement. auto.
Qed.

Lemma element_repeated_at_start v w :
  BaseSelector.element w (cssSelectorBuilder.element v)
  = thrown repeat_text (cssSelectorBuilder.element v).
Proof. reflexivity. Qed.

(** C3, as the code has it.  On a chain whose history holds a kind that
    comes strictly later in the fixed order than the kind of the new part,
    the call throws the order error, with the text given, and records that
    text in the receiver; this is for a new part that is not an [element]
    or an [id] already in the history, for which the guard against
    repeated parts runs first. *)
Theorem earlier_part_throws_order_error s cats c v d :
  Chain s cats ->
  In d cats ->
  rank c < rank d ->
  (In c [CElement; CId] -> ~ In c cats) ->
  method c v s = thrown order_text s
  /\ result (method c v s)
     = Throw (Error "Selector parts should be arranged in the following order: element, id, class, attribute, pseudo-class, pseudo-element").
Proof.
  intros Hch Hd Hlt Huniq. destruct (Chain_type s cats Hch) as [Ht Hne].
  rewrite (method_on_history s cats c v Ht Hne).
  assert (Hrep : repeated c cats = false).
  { destruct c; try reflexivity.
    - cbn. destruct cats as [|[] [|b cats]]; try reflexivity.
      destruct Hd as [<-|[]]. cbn in Hlt. lia.
    - apply existsb_false. intros x Hx. destruct x; try reflexivity.
      exfalso. apply Huniq; [right; left; reflexivity | exact Hx].
    - destruct d; cbn in Hlt; lia. }
  assert (Hmis : misplaced c cats = true).
  { destruct c; try reflexivity; unfold misplaced; apply negb_true_iff;
      destruct (forallb _ cats) eqn:E; try reflexivity;
      pose proof (proj1 (forallb_forall _ _) E d Hd) as Hal;
      destruct d; cbn in Hlt; try lia; discriminate. }
  rewrite Hrep, Hmis. split; reflexivity.
Qed.

Lemma earlier_part_throws_order_error_witness :
  method CId "main" (new_BaseSelector (JsString "element class") "div.box")
  = thrown order_text (new_BaseSelector (JsString "element class") "div.box").
Proof.
  apply (earlier_part_throws_order_error _ [CElement; CClass] CId "main" CClass).
  - apply (chain_Chain (CElement, "div") [(CClass, "box")]). reflexivity.
  - right. left. reflexivity.
  - cbn. lia.
  - intros _ [H|[H|[]]]; discriminate.
Defined.

(** C3 as stated fails on [id('a').class('b').id('c')]: [class] is
    recorded and comes later than [id], yet the error thrown is the one
    for a repeated part. *)
Lemma second_id_after_class_throws_repeat_error :
  chain (CId, "a") [(CClass, "b")] = Normal (new_BaseSelector (JsString "id class") "#a.b")
  /\ rank CId < rank CClass
  /\ result (method CId "c" (new_BaseSelector (JsString "id class") "#a.b"))
     = Throw (Error repeat_text)
  /\ result (method CId "c" (new_BaseSelector (JsString "id class") "#a.b"))
     <> Throw (Error order_text).
Proof.
  repeat split; [cbn; lia | discriminate].
Qed.

(** C9. On a chain whose history holds [id], another [id(...)] throws
    the error for a repeated part, with the text given, and records that
    text in the receiver. *)
Theorem id_repeated_throws_repeat_error s cats v :
  Chain s cats ->
  In CId cats ->
  BaseSelector.id v s = thrown repeat_text s
  /\ result (BaseSelector.id v s)
     = Throw (Error "Element, id and pseudo-element should not occur more then one time inside the selector").
Proof.
  intros Hch Hin. destruct (Chain_type s cats Hch) as [Ht Hne].
  assert (H : BaseSelector.id v s = thrown repeat_text s).
  { change (method CId v s = thrown repeat_text s).
    rewrite (method_on_history s cats _ v Ht Hne).
    assert (repeated CId cats = true) as ->; [|reflexivity].
    apply existsb_exists. exists CId. auto. }
  split; [exact H | now rewrite H].
Qed.

Lemma id_repeated_throws_repeat_error_witness :
  BaseSelector.id "other" (new_BaseSelector (JsString "element id class") "div#main.box")
  = thrown repeat_text (new_BaseSelector (JsString "element id class") "div#main.box").
Proof.
  apply (id_repeated_throws_repeat_error _ [CElement; CId; CClass] "other").
  - apply (chain_Chain (CElement, "div") [(CId, "main"); (CClass, "box")]). reflexivity.
  - right. left. reflexivity.
Defined.




Lemma stringify_value this :
  BaseSelector.stringify this = (Normal (value this), this).
Proof. reflexivity. Qed.

Lemma invoke_stringify (r : Ref) (h : Store) this :
  h !! r = Some this ->
  invoke BaseSelector.stringify r h = Some (Normal (value this), h).
Proof.
  intros Hl. unfold invoke. rewrite Hl, stringify_value.
  now rewrite list_insert_id.
Qed.

(** C4. [combine(left, c, right).stringify()] is the string of [left],
    a space, [c] as given, a space, and the string of [right], whatever
    [c] is; for ["div#main"], ["+"] and ["table#data"] that is
    ["div#main + table#data"], and when [c] is one space the two strings
    end up three spaces apart. *)
Theorem combine_stringify (left right : BaseSelector) (c a b : string) :
  result (BaseSelector.stringify left) = Normal a ->
  result (BaseSelector.stringify right) = Normal b ->
  result (BaseSelector.stringify (cssSelectorBuilder.combine left c right))
  = Normal (a +:+ " " +:+ c +:+ " " +:+ b)
  /\ (a = "div#main" -> c = "+" -> b = "table#data" ->
      result (BaseSelector.stringify (cssSelectorBuilder.combine left c right))
      = Normal "div#main + table#data")
  /\ (c = " " ->
      result (BaseSelector.stringify (cssSelectorBuilder.combine left c right))
      = Normal (a +:+ "   " +:+ b)).
Proof.
  rewrite !stringify_value. cbn [result fst].
  intros Ha Hb. injection Ha as <-. injection Hb as <-.
  repeat split.
  - intros Ha Hc Hb. cbn. rewrite Ha, Hc, Hb. reflexivity.
  - intros ->. reflexivity.
Qed.

Lemma combine_stringify_witness :
  result (BaseSelector.stringify
    (cssSelectorBuilder.combine
       (new_BaseSelector (JsString "element id") "div#main") "+"
       (new_BaseSelector (JsString "element id") "table#data")))
  = Normal "div#main + table#data".
Proof.
  refine (proj1 (proj2 (combine_stringify
    (new_BaseSelector (JsString "element id") "div#main")
    (new_BaseSelector (JsString "element id") "table#data")
    "+" "div#main" "table#data" _ _)) _ _ _); reflexivity.
Defined.

(** The nested example of the documentation. *)
Example combine_nested :
  let b := cssSelectorBuilder.combine in
  match chain (CElement, "div") [(CId, "main"); (CClass, "container"); (CClass, "draggable")],
        chain (CElement, "table") [(CId, "data")],
        chain (CElement, "tr") [(CPseudoClass, "nth-of-type(even)")],
        chain (CElement, "td") [(CPseudoClass, "nth-of-type(even)")] with
  | Normal s1, Normal s2, Normal s3, Normal s4 =>
      result (BaseSelector.stringify (b s1 "+" (b s2 "~" (b s3 " " s4))))
      = Normal "div#main.container.draggable + table#data ~ tr:nth-of-type(even)   td:nth-of-type(even)"
  | _, _, _, _ => False
  end.
Proof. reflexivity. Qed.

(** C6 as stated fails: [element(...)] on a combined selector does not
    return, it throws a [TypeError]. *)
Lemma combined_element_throws_TypeError :
  result (BaseSelector.element "p"
    (cssSelectorBuilder.combine
       (cssSelectorBuilder.element "div") "+" (cssSelectorBuilder.element "table")))
  = Throw TypeError.
Proof. reflexivity. Qed.

(** C6, as the code has it.  [combine] gives its result the [type]
    [undefined], and each of the six methods reads a property of [type]
    before anything else: on a combined selector every one of them throws
    a [TypeError], which is neither of the two errors of the class, and
    leaves the combined selector as it was. *)
Theorem combined_part_throws_TypeError
    (left right : BaseSelector) (combinator : string) (c : Category) (v : string) :
  method c v (cssSelectorBuilder.combine left combinator right)
  = (Throw TypeError, cssSelectorBuilder.combine left combinator right).
Proof. destruct c; reflexivity. Qed.

(** C7. [stringify()] only observes: called any number of times in a
    row on a selector, it returns the accumulated string [value] each
    time and leaves the object as it was. *)
Theorem stringify_pure (this : BaseSelector) (n : nat) :
  call_repeatedly BaseSelector.stringify n this
  = (List.repeat (Normal (value this)) n, this).
Proof.
  induction n as [|n IH]; [reflexivity|].
  cbn [call_repeatedly]. rewrite stringify_value, IH. reflexivity.
Qed.

(** C10. A part method that throws one of the two errors of the class
    leaves [value] and [type] of its receiver as they were, and
    [stringify()] on the receiver returns afterwards what it returned
    before. *)
Theorem failed_part_keeps_selector (this : BaseSelector) (c : Category) (v text : string) :
  result (method c v this) = Throw (Error text) ->
  value (receiver (method c v this)) = value this
  /\ type (receiver (method c v this)) = type this
  /\ result (BaseSelector.stringify (receiver (method c v this)))
     = result (BaseSelector.stringify this).
Proof.
  intros _. destruct (frames_method c v this) as (Ht & Hv & _).
  rewrite !stringify_value. cbn [result fst]. rewrite Hv. auto.
Qed.

Lemma failed_part_keeps_selector_witness :
  value (receiver (method CId "x" (cssSelectorBuilder.class "box"))) = ".box"
  /\ type (receiver (method CId "x" (cssSelectorBuilder.class "box"))) = JsString "class"
  /\ result (BaseSelector.stringify (receiver (method CId "x" (cssSelectorBuilder.class "box"))))
     = Normal ".box".
Proof.
  apply (failed_part_keeps_selector (cssSelectorBuilder.class "box") CId "x" order_text).
  reflexivity.
Defined.

(** ** What a method body depends on *)

Create HintDb respects.

Lemma respects_ret {A} (x : A) : respects (ret x).
Proof. intros a b H. cbn. auto. Qed.

Lemma respects_throw {A} (e : Thrown) : respects (@throw A e).
Proof. intros a b H. cbn. auto. Qed.

Lemma respects_bind {A B} (m : Method A) (k : A -> Method B) :
  respects m -> (forall x, respects (k x)) -> respects (bind m k).
Proof.
  intros Hm Hk a b Hab. unfold bind.
  destruct (Hm a b Hab) as [Hr Hs].
  destruct (m a) as [ra a'], (m b) as [rb b']. cbn in Hr, Hs. subst rb.
  destruct ra as [x|e]; [now apply Hk | cbn; auto].
Qed.

Lemma respects_this_type : respects this_type.
Proof. intros a b [Ht Hv]. repeat split; cbn; congruence. Qed.

Lemma respects_this_value : respects this_value.
Proof. intros a b [Ht Hv]. repeat split; cbn; congruence. Qed.

Lemma respects_member_of v : respects (member_of v).
Proof. destruct v; [apply respects_throw | apply respects_ret]. Qed.

Lemma respects_throwOrderError : respects BaseSelector.throwOrderError.
Proof. intros a b [Ht Hv]. repeat split; cbn; congruence. Qed.

Lemma respects_throwRepeatError : respects BaseSelector.throwRepeatError.
Proof. intros a b [Ht Hv]. repeat split; cbn; congruence. Qed.

Lemma respects_when c m : respects m -> respects (when c m).
Proof. intros Hm. destruct c; [exact Hm | apply respects_ret]. Qed.

#[local] Hint Resolve respects_ret respects_throw respects_this_type respects_this_value
  respects_member_of respects_throwOrderError respects_throwRepeatError
  respects_when : respects.

Ltac respect_body :=
  repeat (apply respects_bind; [|intros ?]); auto with respects.

Lemma respects_isValidType types : respects (BaseSelector.isValidType types).
Proof. unfold BaseSelector.isValidType. respect_body. Qed.

#[local] Hint Resolve respects_isValidType : respects.

Lemma respects_method c v : respects (method c v).
Proof.
  destruct c; unfold method;
    [ unfold BaseSelector.element | unfold BaseSelector.id
    | unfold BaseSelector.class | unfold BaseSelector.attr
    | unfold BaseSelector.pseudoClass | unfold BaseSelector.pseudoElement ];
    respect_body.
Qed.

(** ** Calls through the store *)

Lemma invoke_new_lookup (m : Method BaseSelector) (r : Ref) (h : Store) this :
  h !! r = Some this ->
  invoke_new m r h =
    Some (match m this with
          | (Normal o, this') => (Normal (length h), <[r := this']> h ++ [o])
          | (Throw e, this') => (Throw e, <[r := this']> h)
          end).
Proof.
  intros Hl. unfold invoke_new, invoke. rewrite Hl.
  destruct (m this) as [[o|e] this']; [|reflexivity].
  cbv beta iota. now rewrite length_insert.
Qed.

Lemma returned_invoke_new (m : Method BaseSelector) (r : Ref) (h : Store) :
  returned (invoke_new m r h) =
    match h !! r with
    | None => None
    | Some this => Some (result (m this))
    end.
Proof.
  destruct (h !! r) as [this|] eqn:Hl.
  - rewrite (invoke_new_lookup m r h this Hl).
    destruct (m this) as [[o|e] this']; cbn; [|reflexivity].
    rewrite list_lookup_middle; [reflexivity | now rewrite length_insert].
  - unfold invoke_new, invoke. now rewrite Hl.
Qed.

Ltac split_guards :=
  repeat first
    [ progress cbn [fst snd type value message ToString negb name syntax]
    | match goal with
      | |- context [if ?b then _ else _] => destruct b
      end ].

Lemma part_returns_new this c v s' :
  result (method c v this) = Normal s' ->
  s' = new_BaseSelector (JsString (ToString (type this) +:+ " " +:+ name c))
         (value this +:+ syntax (c, v)).
Proof.
  destruct c; unfold method, BaseSelector.element, BaseSelector.id, BaseSelector.class,
    BaseSelector.attr, BaseSelector.pseudoClass, BaseSelector.pseudoElement,
    BaseSelector.isValidType, BaseSelector.throwOrderError, BaseSelector.throwRepeatError,
    bind, this_type, this_value, this_message, assign_message, member_of, ret, throw, result.
  all: destruct this as [[|t] val msg]; cbn [fst snd type value message ToString];
    unfold when, bind, ret, throw; split_guards;
    intros H; try discriminate; injection H as <-; reflexivity.
Qed.

Lemma receiver_after_part this c v :
  receiver (method c v this) =
    match result (method c v this) with
    | Throw (Error text) => with_message text this
    | _ => this
    end.
Proof.
  destruct c; unfold method, BaseSelector.element, BaseSelector.id, BaseSelector.class,
    BaseSelector.attr, BaseSelector.pseudoClass, BaseSelector.pseudoElement,
    BaseSelector.isValidType, BaseSelector.throwOrderError, BaseSelector.throwRepeatError,
    bind, this_type, this_value, this_message, assign_message, member_of, ret, throw,
    result, receiver, with_message.
  all: destruct this as [[|t] val msg]; cbn [fst snd type value message ToString];
    unfold when, bind, ret, throw; split_guards; reflexivity.
Qed.

(** C8 as stated fails: a part method that throws assigns [this.message]
    first, so the receiver is not the object it was. *)
Lemma failed_part_records_message :
  invoke_new (BaseSelector.element "p") 0 [cssSelectorBuilder.element "div"]
  = Some (Throw (Error repeat_text),
          [ {| type := JsString "element"; value := "div"; message := JsString repeat_text |} ])
  /\ ([ {| type := JsString "element"; value := "div"; message := JsString repeat_text |} ] !! 0)
     <> ([cssSelectorBuilder.element "div"] !! 0).
Proof. split; [reflexivity | discriminate]. Qed.

(** C8, as the code has it.  A part method called on the object at [r]
    touches no other object of the store and leaves [type] and [value] of
    its receiver as they were.  When it returns, the store is the old one
    followed by the new selector, the receiver wholly unchanged; when it
    throws one of the two errors of the class, the store is the old one
    but for the [message] of the receiver, which holds the text thrown;
    when it throws a [TypeError], the store is the old one.  Either way a
    later call of any part method on the same receiver hands back what it
    would have handed back before, so a partial chain can be the base of
    several extensions.  [combine] adds one object and changes none. *)
Theorem parts_and_combine_frame :
  (forall (h : Store) (r : Ref) (c : Category) (v : string) res (h' : Store),
     invoke_new (method c v) r h = Some (res, h') ->
     (forall r', r' <> r -> r' < length h -> h' !! r' = h !! r')
     /\ (exists this this',
           h !! r = Some this /\ h' !! r = Some this'
           /\ type this' = type this /\ value this' = value this
           /\ this' = match res with
                      | Throw (Error text) => with_message text this
                      | _ => this
                      end
           /\ match res with
              | Normal fresh =>
                  h' = h ++ [new_BaseSelector
                               (JsString (ToString (type this) +:+ " " +:+ name c))
                               (value this +:+ syntax (c, v))]
              | Throw (Error text) => h' = <[r := with_message text this]> h
              | Throw TypeError => h' = h
              end)
     /\ (forall fresh, res = Normal fresh ->
           fresh = length h /\ h' !! r = h !! r /\ length h' = S (length h))
     /\ (forall c2 v2,
           returned (invoke_new (method c2 v2) r h')
           = returned (invoke_new (method c2 v2) r h)))
  /\ (forall (h : Store) (r1 r2 : Ref) (combinator : string) fresh (h' : Store),
        combine_new r1 combinator r2 h = Some (fresh, h') ->
        fresh = length h
        /\ (forall r', r' < length h -> h' !! r' = h !! r')
        /\ exists s1 s2,
             h !! r1 = Some s1 /\ h !! r2 = Some s2
             /\ h' = h ++ [new_BaseSelector undefined
                             (value s1 +:+ " " +:+ combinator +:+ " " +:+ value s2)]).
Proof.
  split.
  - intros h r c v res h' Hcall.
    destruct (h !! r) as [this|] eqn:Hl;
      [| unfold invoke_new, invoke in Hcall; rewrite Hl in Hcall; discriminate].
    pose proof (lookup_lt_Some h r this Hl) as Hlt.
    rewrite (invoke_new_lookup _ r h this Hl) in Hcall.
    destruct (frames_method c v this) as (Ht & Hv & Hn).
    pose proof (receiver_after_part this c v) as Hrec.
    pose proof (part_returns_new this c v) as Hnew.
    destruct (method c v this) as [[o|e] this'] eqn:Hm;
      cbn [result receiver fst snd] in *; injection Hcall as <- <-.
    + subst this'. rewrite (Hnew o eq_refl). rewrite list_insert_id by exact Hl.
      split; [|split; [|split]].
      * intros r' _ Hr'. now apply lookup_app_l.
      * exists this, this. rewrite lookup_app_l by exact Hlt. auto 10.
      * intros fresh Hf. injection Hf as <-.
        rewrite lookup_app_l by exact Hlt. rewrite length_app. cbn.
        repeat split; [exact Hl | lia].
      * intros c2 v2. rewrite !returned_invoke_new.
        now rewrite lookup_app_l by exact Hlt.
    + split; [|split; [|split]].
      * intros r' Hne _. apply list_lookup_insert_ne. congruence.
      * exists this, this'. rewrite list_lookup_insert_eq by exact Hlt.
        repeat split; auto.
        destruct e as [text|]; subst this'; [reflexivity|].
        now rewrite list_insert_id.
      * discriminate.
      * intros c2 v2. rewrite !returned_invoke_new.
        rewrite list_lookup_insert_eq by exact Hlt. rewrite Hl. f_equal.
        apply respects_method. split; assumption.
  - intros h r1 r2 combinator fresh h' Hc. unfold combine_new in Hc.
    destruct (h !! r1) as [s1|] eqn:H1, (h !! r2) as [s2|] eqn:H2; try discriminate.
    injection Hc as <- <-. split; [reflexivity|]. split.
    + intros r' Hr'. now apply lookup_app_l.
    + exists s1, s2. repeat split.
Qed.

Lemma parts_and_combine_frame_witness :
  (exists this this',
     [cssSelectorBuilder.element "div"] !! 0 = Some this
     /\ [with_message repeat_text (cssSelectorBuilder.element "div")] !! 0 = Some this'
     /\ type this' = type this /\ value this' = value this
     /\ this' = with_message repeat_text this
     /\ [with_message repeat_text (cssSelectorBuilder.element "div")]
        = <[0 := with_message repeat_text this]> [cssSelectorBuilder.element "div"])
  /\ returned (invoke_new (method CClass "box") 0
                 [cssSelectorBuilder.element "div";
                  new_BaseSelector (JsString "element id") "div#main"])
     = returned (invoke_new (method CClass "box") 0 [cssSelectorBuilder.element "div"])
  /\ (2 = 2 /\
      forall r', r' < 2 ->
        [cssSelectorBuilder.element "a"; cssSelectorBuilder.element "b";
         cssSelectorBuilder.combine (cssSelectorBuilder.element "a") ">"
           (cssSelectorBuilder.element "b")] !! r'
        = [cssSelectorBuilder.element "a"; cssSelectorBuilder.element "b"] !! r').
Proof.
  split; [|split].
  - refine (proj1 (proj2 (proj1 parts_and_combine_frame
      [cssSelectorBuilder.element "div"] 0 CElement "p" (Throw (Error repeat_text))
      [with_message repeat_text (cssSelectorBuilder.element "div")] _))).
    reflexivity.
  - refine (proj2 (proj2 (proj2 (proj1 parts_and_combine_frame
      [cssSelectorBuilder.element "div"] 0 CId "main" (Normal 1)
      [cssSelectorBuilder.element "div";
       new_BaseSelector (JsString "element id") "div#main"] _))) CClass "box").
    reflexivity.
  - refine (let H := proj2 parts_and_combine_frame
      [cssSelectorBuilder.element "a"; cssSelectorBuilder.element "b"] 0 1 ">" 2
      [cssSelectorBuilder.element "a"; cssSelectorBuilder.element "b";
       cssSelectorBuilder.combine (cssSelectorBuilder.element "a") ">"
         (cssSelectorBuilder.element "b")] _ in conj (proj1 H) (proj1 (proj2 H))).
    reflexivity.
Defined.

(** ** Further properties of the builder *)

(** *** [isValidType] with any list of part names *)

Lemma name_cons c :
  exists ch w, name c = String ch w /\ Js.is_white_space ch = false.
Proof. destruct c; eexists _, _; split; reflexivity. Qed.

Lemma name_inj c d : name c = name d -> c = d.
Proof. destruct c, d; intros H; try reflexivity; discriminate. Qed.

Lemma allowed_In ds c : allowed (map name ds) c = true <-> In c ds.
Proof.
  unfold allowed. rewrite existsb_exists. split.
  - intros (w & Hw & He). apply in_map_iff in Hw as (d & <- & Hd).
    apply String.eqb_eq, name_inj in He. now subst.
  - intros H. exists (name c). split; [now apply in_map | apply String.eqb_refl].
Qed.

(** What follows a name in [type]: nothing, or a space. *)
Lemma type_tail_form cats :
  type_tail cats = EmptyString \/ exists r, type_tail cats = String " " r.
Proof. destruct cats as [|c cats]; [now left | right; now eexists]. Qed.

Lemma prefix_name d c rest :
  rest = EmptyString \/ (exists r, rest = String " " r) ->
  String.prefix (name d) (name c +:+ rest) = String.eqb (name c) (name d).
Proof.
  intros [->|[r ->]]; destruct c, d; crunch_strings; reflexivity.
Qed.

Lemma exec_at_name ds c rest :
  rest = EmptyString \/ (exists r, rest = String " " r) ->
  Js.exec (map name ds) (name c +:+ rest) =
    if allowed (map name ds) c then Some (String.length (name c)) else None.
Proof.
  intros Hrest. induction ds as [|d ds IH]; [reflexivity|].
  cbn [map Js.exec]. rewrite (prefix_name d c rest Hrest).
  unfold allowed in *. cbn [existsb].
  destruct (String.eqb (name c) (name d)) eqn:E; cbn [orb].
  - apply String.eqb_eq in E. now rewrite E.
  - exact IH.
Qed.

Lemma exec_at_space ds r :
  Js.exec (map name ds) (String " " r) = None.
Proof.
  induction ds as [|d ds IH]; [reflexivity|].
  cbn [map Js.exec]. destruct d; cbn; exact IH.
Qed.

Lemma replace_from_skip re w rest :
  Js.replace_from re (String.length w) (w +:+ rest) = Js.replace_from re 0 rest.
Proof. induction w as [|a w IH]; [reflexivity | exact IH]. Qed.

Lemma replace_at_name ds c rest :
  rest = EmptyString \/ (exists r, rest = String " " r) ->
  blank (Js.replace_from (map name ds) 0 (name c +:+ rest)) =
    allowed (map name ds) c && blank (Js.replace_from (map name ds) 0 rest).
Proof.
  intros Hrest. pose proof (exec_at_name ds c rest Hrest) as He.
  destruct (name_cons c) as (ch & w & Hn & Hch). rewrite Hn in *.
  cbn [String.append Js.replace_from]. cbn [String.append] in He. rewrite He.
  destruct (allowed (map name ds) c); cbn [andb String.length].
  - now rewrite replace_from_skip.
  - cbn [blank]. now rewrite Hch.
Qed.

Lemma replace_names_tail ds cats :
  blank (Js.replace_from (map name ds) 0 (type_tail cats)) =
    forallb (allowed (map name ds)) cats.
Proof.
  induction cats as [|c cats IH]; [reflexivity|].
  cbn [type_tail forallb].
  change (" " +:+ name c +:+ type_tail cats)
    with (String " " (name c +:+ type_tail cats)).
  cbn [Js.replace_from]. rewrite exec_at_space. cbn [blank].
  rewrite (replace_at_name ds c _ (type_tail_form cats)), IH. reflexivity.
Qed.

Lemma replace_names ds cats :
  blank (Js.replace_all (map name ds) (type_of cats)) =
    forallb (allowed (map name ds)) cats.
Proof.
  destruct cats as [|c cats]; [reflexivity|].
  unfold Js.replace_all. cbn [type_of forallb].
  now rewrite (replace_at_name ds c _ (type_tail_form cats)), replace_names_tail.
Qed.

(** X6. On a chain, [isValidType(...names)] with any names of kinds, in
    any order, returns whether every kind recorded in the history is among
    them; it does not throw and leaves the selector as it was.  With no
    argument it returns [false]. *)
Theorem isValidType_decides_history s cats (ds : list Category) :
  Chain s cats ->
  exists ok,
    BaseSelector.isValidType (map name ds) s = (Normal ok, s)
    /\ (ok = true <-> forall c, In c cats -> In c ds)
    /\ (ds = [] -> ok = false).
Proof.
  intros Hch. destruct (Chain_type s cats Hch) as [Ht Hne].
  exists (forallb (allowed (map name ds)) cats). split; [|split].
  - unfold BaseSelector.isValidType, bind, this_type, member_of, ret.
    rewrite Ht, trim_length_blank, replace_names. reflexivity.
  - rewrite forallb_forall. split; intros H c Hc; apply allowed_In; auto.
  - intros ->. destruct cats as [|c cats]; [congruence | reflexivity].
Qed.

Lemma isValidType_decides_history_witness :
  exists ok,
    BaseSelector.isValidType (map name [CClass; CElement])
      (new_BaseSelector (JsString "element class class") "div.a.b")
    = (Normal ok, new_BaseSelector (JsString "element class class") "div.a.b")
    /\ (ok = true <-> forall c, In c [CElement; CClass; CClass] -> In c [CClass; CElement])
    /\ ([CClass; CElement] = [] -> ok = false).
Proof.
  apply (isValidType_decides_history _ [CElement; CClass; CClass] [CClass; CElement]).
  apply (chain_Chain (CElement, "div") [(CClass, "a"); (CClass, "b")]). reflexivity.
Defined.

(** *** The invariant and the errors of chains *)

(** X9. Every selector reached from a facade entry point through part
    methods, receivers of failed calls included, keeps in [type] the names
    of its parts joined by single spaces, and these parts are a valid
    ordering: ranks never decrease, and element, id and pseudo-element
    occur at most once. *)
Theorem chain_history_invariant s cats :
  Chain s cats ->
  type s = JsString (type_of cats)
  /\ cats <> []
  /\ valid_order cats = true.
Proof.
  intros Hch. destruct (Chain_type s cats Hch) as [Ht Hne].
  repeat split; [exact Ht | exact Hne | exact (Chain_valid_order s cats Hch)].
Qed.

Lemma chain_history_invariant_witness :
  type (new_BaseSelector (JsString "element id class") "div#main.box")
    = JsString (type_of [CElement; CId; CClass])
  /\ [CElement; CId; CClass] <> []
  /\ valid_order [CElement; CId; CClass] = true.
Proof.
  apply (chain_history_invariant _ [CElement; CId; CClass]).
  apply (chain_Chain (CElement, "div") [(CId, "main"); (CClass, "box")]). reflexivity.
Defined.

Lemma part_on_chain_outcomes s cats c v :
  Chain s cats ->
  method c v s = (Normal (new_BaseSelector (JsString (type_of (cats ++ [c])))
                            (value s +:+ syntax (c, v))), s)
  \/ method c v s = thrown repeat_text s
  \/ method c v s = thrown order_text s.
Proof.
  intros Hch. destruct (Chain_type s cats Hch) as [Ht Hne].
  rewrite (method_on_history s cats c v Ht Hne).
  destruct (repeated c cats); [auto|]. destruct (misplaced c cats); auto.
Qed.

(** X2. A part method called on a chain has three outcomes only: it
    returns the selector extended by the part and leaves the receiver as it
    was, or it throws one of the two errors of the class and records the
    text in the receiver.  It never throws a [TypeError]. *)
Theorem part_on_chain_three_outcomes s cats c v :
  Chain s cats ->
  (method c v s = (Normal (new_BaseSelector (JsString (type_of (cats ++ [c])))
                             (value s +:+ syntax (c, v))), s)
   \/ method c v s = thrown repeat_text s
   \/ method c v s = thrown order_text s)
  /\ result (method c v s) <> Throw TypeError.
Proof.
  intros Hch. pose proof (part_on_chain_outcomes s cats c v Hch) as H.
  split; [exact H|]. destruct H as [-> | [-> | ->]]; discriminate.
Qed.

Lemma part_on_chain_three_outcomes_witness :
  result (method CAttr "href" (new_BaseSelector (JsString "id pseudoClass") "#a:hover"))
  <> Throw TypeError.
Proof.
  apply (part_on_chain_three_outcomes _ [CId; CPseudoClass] CAttr "href").
  apply (chain_Chain (CId, "a") [(CPseudoClass, "hover")]). reflexivity.
Defined.

(** X3. The method [element] never extends a chain: on every chain it
    throws one of the two errors of the class, the error for a repeated
    part on the selector the facade's [element] returned, the order error
    on a chain without an element.  An element can only be given at the
    facade. *)
Theorem element_never_extends_chain s cats v :
  Chain s cats ->
  exists text,
    BaseSelector.element v s = thrown text s
    /\ (text = repeat_text \/ text = order_text)
    /\ (cats = [CElement] -> text = repeat_text)
    /\ (~ In CElement cats -> text = order_text).
Proof.
  intros Hch. destruct (Chain_type s cats Hch) as [Ht Hne].
  change (BaseSelector.element v s) with (method CElement v s).
  rewrite (method_on_history s cats CElement v Ht Hne). cbn [repeated misplaced].
  destruct cats as [|[] [|d cats]]; try congruence.
  1: exists repeat_text; repeat split; auto; intros H; exfalso; apply H; now left.
  all: exists order_text; repeat split; auto; intros H; discriminate.
Qed.

Lemma element_never_extends_chain_witness :
  exists text,
    BaseSelector.element "p" (new_BaseSelector (JsString "class attr") ".a[b]")
    = thrown text (new_BaseSelector (JsString "class attr") ".a[b]")
    /\ (text = repeat_text \/ text = order_text)
    /\ ([CClass; CAttr] = [CElement] -> text = repeat_text)
    /\ (~ In CElement [CClass; CAttr] -> text = order_text).
Proof.
  apply (element_never_extends_chain _ [CClass; CAttr] "p").
  apply (chain_Chain (CClass, "a") [(CAttr, "b")]). reflexivity.
Defined.

(** X4. A pseudo-element closes a chain: once the history holds one,
    every part method throws; a further pseudo-element gets the error for
    a repeated part, a class, attribute or pseudo-class the order error. *)
Theorem pseudoElement_closes_chain s cats c v :
  Chain s cats ->
  In CPseudoElement cats ->
  exists text,
    method c v s = thrown text s
    /\ (text = repeat_text \/ text = order_text)
    /\ (c = CPseudoElement -> text = repeat_text)
    /\ (repeatable c = true -> text = order_text).
Proof.
  intros Hch Hin. destruct (Chain_type s cats Hch) as [Ht Hne].
  rewrite (method_on_history s cats c v Ht Hne).
  assert (Hpe : existsb is_pseudoElement cats = true)
    by (apply existsb_exists; exists CPseudoElement; auto).
  assert (Hmis : c <> CPseudoElement -> misplaced c cats = true).
  { intros Hc. destruct c; try congruence; try reflexivity;
      unfold misplaced; apply negb_true_iff;
      destruct (forallb _ cats) eqn:E; try reflexivity;
      pose proof (proj1 (forallb_forall _ _) E CPseudoElement Hin); discriminate. }
  destruct (repeated c cats) eqn:Hrep.
  - exists repeat_text. repeat split; auto.
    intros Hc. destruct c; discriminate.
  - assert (Hc : c <> CPseudoElement).
    { intros ->. cbn in Hrep. congruence. }
    rewrite (Hmis Hc). exists order_text. repeat split; auto. congruence.
Qed.

Lemma pseudoElement_closes_chain_witness :
  exists text,
    method CClass "x" (new_BaseSelector (JsString "element pseudoElement") "p::after")
    = thrown text (new_BaseSelector (JsString "element pseudoElement") "p::after")
    /\ (text = repeat_text \/ text = order_text)
    /\ (CClass = CPseudoElement -> text = repeat_text)
    /\ (repeatable CClass = true -> text = order_text).
Proof.
  apply (pseudoElement_closes_chain _ [CElement; CPseudoElement] CClass "x").
  - apply (chain_Chain (CElement, "p") [(CPseudoElement, "after")]). reflexivity.
  - right. left. reflexivity.
Defined.

(** *** What a part method returns, on any receiver *)

(** X7. Part methods only append: whatever the receiver, a call that
    returns hands back a new object whose [value] is the receiver's
    followed by the part as the selector syntax writes it, whose [type] is
    the receiver's followed by a space and the name of the kind, and which
    has no [message]; the receiver is left as it was. *)
Theorem part_appends_to_receiver this c v s' :
  result (method c v this) = Normal s' ->
  value s' = value this +:+ syntax (c, v)
  /\ type s' = JsString (ToString (type this) +:+ " " +:+ name c)
  /\ message s' = undefined
  /\ receiver (method c v this) = this.
Proof.
  intros H. rewrite (part_returns_new this c v s' H). repeat split.
  destruct (frames_method c v this) as (_ & _ & Hn). exact (Hn s' H).
Qed.

Lemma part_appends_to_receiver_witness :
  value (new_BaseSelector (JsString "class attr") ".a[b=c]") = ".a" +:+ syntax (CAttr, "b=c")
  /\ type (new_BaseSelector (JsString "class attr") ".a[b=c]")
     = JsString (ToString (JsString "class") +:+ " " +:+ name CAttr)
  /\ message (new_BaseSelector (JsString "class attr") ".a[b=c]") = undefined
  /\ receiver (method CAttr "b=c" (cssSelectorBuilder.class "a")) = cssSelectorBuilder.class "a".
Proof.
  apply (part_appends_to_receiver (cssSelectorBuilder.class "a") CAttr "b=c").
  reflexivity.
Defined.

(** X8. What a part method leaves in its receiver, whatever the
    receiver: when it throws one of the errors of the class, the receiver
    is as before but for [message], which holds the text thrown; when it
    returns or throws a [TypeError], the receiver is as before. *)
Theorem part_effect_on_receiver this c v :
  receiver (method c v this) =
    match result (method c v this) with
    | Throw (Error text) => with_message text this
    | _ => this
    end.
Proof.
  destruct c; unfold method, BaseSelector.element, BaseSelector.id, BaseSelector.class,
    BaseSelector.attr, BaseSelector.pseudoClass, BaseSelector.pseudoElement,
    BaseSelector.isValidType, BaseSelector.throwOrderError, BaseSelector.throwRepeatError,
    bind, this_type, this_value, this_message, assign_message, member_of, ret, throw,
    result, receiver, with_message.
  all: destruct this as [[|t] val msg]; cbn [fst snd type value message ToString];
    unfold when, bind, ret, throw; split_guards; reflexivity.
Qed.

(** *** Which chains go through *)

Lemma extend_class_errors fs : forall s cats e,
  Chain s cats ->
  extend s fs = Throw e ->
  e = Error repeat_text \/ e = Error order_text.
Proof.
  induction fs as [|[c v] fs IH]; intros s cats e Hch He; cbn [extend] in He;
    [discriminate|].
  destruct (part_on_chain_outcomes s cats c v Hch) as [H | [H | H]];
    rewrite H in He; cbn [result fst thrown] in He.
  - refine (IH _ (cats ++ [c]) e _ He).
    apply (Chain_part s cats c v); [exact Hch | exact (f_equal fst H)].
  - injection He as <-. now left.
  - injection He as <-. now right.
Qed.

Lemma extend_message fs : forall s s',
  message s = undefined ->
  extend s fs = Normal s' ->
  message s' = undefined.
Proof.
  induction fs as [|[c v] fs IH]; intros s s' Hm He; cbn [extend] in He.
  - now injection He as <-.
  - destruct (result (method c v s)) as [s1|e] eqn:E; [|discriminate].
    apply (IH s1 s'); [|exact He].
    now rewrite (part_returns_new s c v s1 E).
Qed.

(** X1. A chained expression [start(v1).m2(v2)...mn(vn)] returns
    exactly when the kinds of its parts are a valid ordering, and then the
    selector returned has the names of the kinds in [type], the parts
    concatenated in [value] and no [message]; otherwise it throws one of
    the two errors of the class. *)
Theorem chain_returns_iff_valid_order (f : Fragment) (fs : list Fragment) :
  (valid_order (map fst (f :: fs)) = true ->
   chain f fs = Normal (new_BaseSelector (JsString (type_of (map fst (f :: fs))))
                          (concat_syntax (f :: fs))))
  /\ (valid_order (map fst (f :: fs)) = false ->
      exists text, chain f fs = Throw (Error text)
                   /\ (text = repeat_text \/ text = order_text)).
Proof.
  split.
  - intros Hv. destruct f as [c v].
    destruct (extend_valid fs (start c v) [c] c) as (s & He & Hval);
      [destruct c; reflexivity | discriminate | repeat constructor | exact Hv |].
    unfold chain. cbn [fst snd]. rewrite He. f_equal.
    pose proof (chain_Chain (c, v) fs s He) as Hch.
    destruct (Chain_type _ _ Hch) as [Ht _].
    assert (Hm : message s = undefined).
    { apply (extend_message fs (start c v)); [destruct c; reflexivity | exact He]. }
    destruct s as [ty val msg]. cbn in Ht, Hval, Hm. subst. unfold new_BaseSelector.
    f_equal. destruct c; reflexivity.
  - intros Hv. destruct (chain f fs) as [s|e] eqn:E.
    + pose proof (Chain_valid_order _ _ (chain_Chain f fs s E)). congruence.
    + destruct (extend_class_errors fs (start (fst f) (snd f)) [fst f] e) as [-> | ->];
        [apply Chain_start | exact E | |]; eauto.
Qed.

Lemma chain_returns_iff_valid_order_witness :
  chain (CId, "a") [(CAttr, "b"); (CAttr, "c"); (CPseudoElement, "d")]
    = Normal (new_BaseSelector (JsString "id attr attr pseudoElement") "#a[b][c]::d")
  /\ exists text,
       chain (CId, "a") [(CAttr, "b"); (CClass, "c")] = Throw (Error text)
       /\ (text = repeat_text \/ text = order_text).
Proof.
  split.
  - apply (proj1 (chain_returns_iff_valid_order (CId, "a")
             [(CAttr, "b"); (CAttr, "c"); (CPseudoElement, "d")])).
    reflexivity.
  - apply (proj2 (chain_returns_iff_valid_order (CId, "a") [(CAttr, "b"); (CClass, "c")])).
    reflexivity.
Defined.

(** *** Nested [combine] *)

(** X5. Nesting [combine] to the left or to the right gives the same
    selector: [combine(combine(a, c1, b), c2, d)] and
    [combine(a, c1, combine(b, c2, d))] are equal field by field, so they
    stringify to the same text, whatever the selectors and combinators. *)
Theorem combine_nesting (a b d : BaseSelector) (c1 c2 : string) :
  cssSelectorBuilder.combine (cssSelectorBuilder.combine a c1 b) c2 d
  = cssSelectorBuilder.combine a c1 (cssSelectorBuilder.combine b c2 d)
  /\ result (BaseSelector.stringify
       (cssSelectorBuilder.combine (cssSelectorBuilder.combine a c1 b) c2 d))
     = Normal (value a +:+ " " +:+ c1 +:+ " " +:+ value b +:+ " " +:+ c2 +:+ " " +:+ value d).
Proof.
  split.
  - unfold cssSelectorBuilder.combine. cbn [value new_BaseSelector Js.join].
    now rewrite !append_assoc.
  - rewrite stringify_value. cbn [result fst cssSelectorBuilder.combine value
      new_BaseSelector Js.join].
    now rewrite !append_assoc.
Qed.

(** ** [Rectangle] *)

Section Documented.
Import PrimFloat.

Example getArea_documented :
  getArea (new_Rectangle 10%float 20%float) = 200%float.
Proof. reflexivity. Qed.

End Documented.

Lemma SFmul_comm prec emax x y :
  SpecFloat.SFmul prec emax x y = SpecFloat.SFmul prec emax y x.
Proof.
  destruct x as [sx|sx| |sx mx ex], y as [sy|sy| |sy my ey]; cbn;
    rewrite ?(xorb_comm sx sy), ?(Pos.mul_comm mx my), ?(Z.add_comm ex ey);
    reflexivity.
Qed.

Lemma float_mul_comm (x y : PrimFloat.float) :
  PrimFloat.mul x y = PrimFloat.mul y x.
Proof.
  rewrite <- (FloatAxioms.SF2Prim_Prim2SF (PrimFloat.mul x y)).
  rewrite <- (FloatAxioms.SF2Prim_Prim2SF (PrimFloat.mul y x)).
  rewrite !FloatAxioms.mul_spec. unfold FloatAxioms.SF64mul.
  now rewrite SFmul_comm.
Qed.

(** X10. Swapping the sides of a rectangle does not change its area:
    [new Rectangle(w, h).getArea()] and [new Rectangle(h, w).getArea()]
    are the same double, for all doubles, the infinities, the signed
    zeros and NaN included. *)
Theorem getArea_swap_sides (w h : PrimFloat.float) :
  getArea (new_Rectangle w h) = getArea (new_Rectangle h w).
Proof. unfold getArea, new_Rectangle. cbn [width height]. apply float_mul_comm. Qed.

Lemma SFcompare_refl f :
  f <> SpecFloat.S754_nan -> SpecFloat.SFcompare f f = Some Eq.
Proof.
  destruct f as [s|s| |s m e]; intros H; try congruence; cbn.
  - reflexivity.
  - now destruct s.
  - rewrite Z.compare_refl, Pos.compare_cont_refl. now destruct s.
Qed.

Lemma is_nan_spec x :
  PrimFloat.is_nan x = true <-> FloatOps.Prim2SF x = SpecFloat.S754_nan.
Proof.
  unfold PrimFloat.is_nan. rewrite FloatAxioms.eqb_spec. unfold SpecFloat.SFeqb.
  split.
  - intros H. destruct (FloatOps.Prim2SF x) eqn:E; try reflexivity;
      rewrite SFcompare_refl in H by discriminate; discriminate.
  - intros ->. reflexivity.
Qed.

Lemma is_zero_spec x :
  PrimFloat.is_zero x = true <-> exists s, FloatOps.Prim2SF x = SpecFloat.S754_zero s.
Proof.
  unfold PrimFloat.is_zero. rewrite FloatAxioms.eqb_spec.
  change (FloatOps.Prim2SF PrimFloat.zero) with (SpecFloat.S754_zero false).
  unfold SpecFloat.SFeqb. split.
  - intros H. destruct (FloatOps.Prim2SF x) as [s|s| |s m e]; cbn in H;
      try discriminate; [now exists s | now destruct s | now destruct s].
  - intros [s ->]. reflexivity.
Qed.

Lemma is_infinity_spec x :
  PrimFloat.is_infinity x = true <->
  exists s, FloatOps.Prim2SF x = SpecFloat.S754_infinity s.
Proof.
  unfold PrimFloat.is_infinity. rewrite FloatAxioms.eqb_spec, FloatAxioms.abs_spec.
  change (FloatOps.Prim2SF PrimFloat.infinity) with (SpecFloat.S754_infinity false).
  unfold SpecFloat.SFeqb. split.
  - intros H. destruct (FloatOps.Prim2SF x) as [s|s| |s m e]; cbn in H;
      try discriminate; now exists s.
  - intros [s ->]. reflexivity.
Qed.

(** X11. [getArea] checks nothing and never throws: when a side is NaN
    the area is NaN, and so it is when one side is a zero and the other an
    infinity. *)
Theorem getArea_not_a_number (r : Rectangle) :
  PrimFloat.is_nan (width r) = true
  \/ PrimFloat.is_nan (height r) = true
  \/ (PrimFloat.is_zero (width r) = true /\ PrimFloat.is_infinity (height r) = true)
  \/ (PrimFloat.is_infinity (width r) = true /\ PrimFloat.is_zero (height r) = true) ->
  PrimFloat.is_nan (getArea r) = true.
Proof.
  intros H. apply is_nan_spec. unfold getArea.
  rewrite FloatAxioms.mul_spec. unfold FloatAxioms.SF64mul.
  destruct H as [H | [H | [[Hw Hh] | [Hw Hh]]]].
  - apply is_nan_spec in H. now rewrite H.
  - apply is_nan_spec in H. rewrite H. now destruct (FloatOps.Prim2SF (width r)).
  - apply is_zero_spec in Hw as [s ->]. apply is_infinity_spec in Hh as [s' ->].
    reflexivity.
  - apply is_infinity_spec in Hw as [s ->]. apply is_zero_spec in Hh as [s' ->].
    reflexivity.
Qed.

Lemma getArea_not_a_number_witness :
  PrimFloat.is_nan (getArea (new_Rectangle PrimFloat.neg_zero PrimFloat.infinity)) = true.
Proof.
  apply (getArea_not_a_number (new_Rectangle PrimFloat.neg_zero PrimFloat.infinity)).
  right. right. left. split; reflexivity.
Defined.
